(** * Shallow embedding of trojan-plus [src/core/utils.h]

    The header provides the write coalescer [SendDataCache], the read
    adapter [ReadDataCache], the connector [connect_out_socket], the TLS
    teardown [shutdown_ssl_socket] and a set of wire and socket-option
    constants.  Callbacks are [std::function] values that may call back into
    the objects that invoke them; they are modelled as finite trees of the
    calls they make. *)

From Stdlib Require Import String List Bool Arith Lia ZArith.
Import ListNotations.
Open Scope string_scope.

(* ------------------------------------------------------------------ *)
(** ** SendDataCache *)

Module SendDataCache.

(** A [SentHandler] is identified by a number; its body is the sequence of
    calls it makes on the same cache when it runs. *)
Inductive SentHandler : Type :=
| Handler : nat -> list Call -> SentHandler
with Call : Type :=
| CallInsert : string -> Call               (* insert_data(d) *)
| CallPush : string -> SentHandler -> Call. (* push_data(d, h) *)

Definition hid (h : SentHandler) : nat :=
  match h with Handler i _ => i end.

Definition hbody (h : SentHandler) : list Call :=
  match h with Handler _ b => b end.

(** The members of the class, plus the environment: [connected] is the
    current answer of [is_connected()], [pending] the writes handed to
    [async_writer] whose completion handler has not run yet, [written]
    every buffer ever handed to [async_writer], [fired] the ids of the
    callbacks invoked (in order) and [pushed] the ids passed to
    [push_data] (in order). *)
Record state : Type := mkState {
  handler_queue : list SentHandler;
  data_queue : string;
  sending_data_buff : string;
  sending_data_handler : list SentHandler;
  is_async_sending : bool;
  connected : bool;
  pending : list string;
  written : list string;
  fired : list nat;
  pushed : list nat
}.

(** [SendDataCache()]: [is_async_sending(false)], [is_connected] returns
    [true]. *)
Definition init : state :=
  mkState [] "" "" [] false true [] [] [] [].

Definition set_data_queue (d : string) (s : state) : state :=
  mkState (handler_queue s) d (sending_data_buff s) (sending_data_handler s)
    (is_async_sending s) (connected s) (pending s) (written s) (fired s) (pushed s).

Definition set_is_async_sending (b : bool) (s : state) : state :=
  mkState (handler_queue s) (data_queue s) (sending_data_buff s) (sending_data_handler s)
    b (connected s) (pending s) (written s) (fired s) (pushed s).

Definition set_sending_data_handler (l : list SentHandler) (s : state) : state :=
  mkState (handler_queue s) (data_queue s) (sending_data_buff s) l
    (is_async_sending s) (connected s) (pending s) (written s) (fired s) (pushed s).

Definition set_connected (b : bool) (s : state) : state :=
  mkState (handler_queue s) (data_queue s) (sending_data_buff s) (sending_data_handler s)
    (is_async_sending s) b (pending s) (written s) (fired s) (pushed s).

Definition set_pending (p : list string) (s : state) : state :=
  mkState (handler_queue s) (data_queue s) (sending_data_buff s) (sending_data_handler s)
    (is_async_sending s) (connected s) p (written s) (fired s) (pushed s).

Definition is_empty (d : string) : bool :=
  match d with EmptyString => true | _ => false end.

(** [async_send]: the guard, then [is_async_sending = true],
    [sending_data_buff = data_queue], [data_queue.clear()], the handlers
    moved with [back_inserter] (appended) onto [sending_data_handler],
    [handler_queue.clear()], and one call of [async_writer]. *)
Definition async_send (s : state) : state :=
  if is_empty (data_queue s) || negb (connected s) || is_async_sending s then s
  else mkState [] "" (data_queue s) (sending_data_handler s ++ handler_queue s)
         true (connected s) (pending s ++ [data_queue s])
         (written s ++ [data_queue s]) (fired s) (pushed s).

(** [insert_data]: [data_queue = data + data_queue; async_send();] *)
Definition insert_data (d : string) (s : state) : state :=
  async_send (set_data_queue (d ++ data_queue s) s).

(** [push_data]: [data_queue += data; handler_queue.emplace_back(handler);
    async_send();] *)
Definition push_data (d : string) (h : SentHandler) (s : state) : state :=
  async_send
    (mkState (handler_queue s ++ [h]) (data_queue s ++ d) (sending_data_buff s)
       (sending_data_handler s) (is_async_sending s) (connected s) (pending s)
       (written s) (fired s) (pushed s ++ [hid h])).

(** The calls a callback makes on the cache. *)
Fixpoint run_calls (cs : list Call) (s : state) : state :=
  match cs with
  | [] => s
  | CallInsert d :: cs' => run_calls cs' (insert_data d s)
  | CallPush d h :: cs' => run_calls cs' (push_data d h s)
  end.

Definition set_fired (l : list nat) (s : state) : state :=
  mkState (handler_queue s) (data_queue s) (sending_data_buff s) (sending_data_handler s)
    (is_async_sending s) (connected s) (pending s) (written s) l (pushed s).

(** Invoking a callback: it is recorded as fired, then runs its body. *)
Definition fire (h : SentHandler) (s : state) : state :=
  run_calls (hbody h) (set_fired (fired s ++ [hid h]) s).

(** [for (size_t i = 0; i < sending_data_handler.size(); i++)
       sending_data_handler[i](ec);] -- the size is read again at every
    iteration.  [fuel] bounds the iterations; [None] means it ran out. *)
Fixpoint fire_from (fuel i : nat) (s : state) : option state :=
  match fuel with
  | O => None
  | S f =>
      match nth_error (sending_data_handler s) i with
      | None => Some s
      | Some h => fire_from f (S i) (fire h s)
      end
  end.

(** The completion lambda given to [async_writer]; [ok] is [!ec]. *)
Definition on_sent (fuel : nat) (ok : bool) (s : state) : option state :=
  let s1 := set_is_async_sending false s in
  if ok then
    match fire_from fuel 0 s1 with
    | None => None
    | Some s2 => Some (async_send (set_sending_data_handler [] s2))
    end
  else Some s1.

(** The environment completes the oldest outstanding write. *)
Definition complete (fuel : nat) (ok : bool) (s : state) : option state :=
  match pending s with
  | [] => None
  | _ :: ws => on_sent fuel ok (set_pending ws s)
  end.

(** Everything that can happen to a cache: the owner pushes or inserts
    data, the transport changes its connection status, or a write
    completes. *)
Inductive step : state -> state -> Prop :=
| StepPush : forall d h s, step s (push_data d h s)
| StepInsert : forall d s, step s (insert_data d s)
| StepConnected : forall b s, step s (set_connected b s)
| StepComplete : forall fuel ok s s', complete fuel ok s = Some s' -> step s s'.

Inductive reachable : state -> Prop :=
| reach_init : reachable init
| reach_step : forall s s', reachable s -> step s s' -> reachable s'.

End SendDataCache.

(* ------------------------------------------------------------------ *)
(** ** ReadDataCache *)

Module ReadDataCache.

(** A [ReadHandler] is identified by a number; its body is the sequence of
    calls it makes on the same cache when it runs. *)
Inductive ReadHandler : Type :=
| RHandler : nat -> list RCall -> ReadHandler
with RCall : Type :=
| RCallPush : string -> RCall             (* push_data(d) *)
| RCallRead : ReadHandler -> RCall.       (* async_read(h) *)

Definition rid (h : ReadHandler) : nat :=
  match h with RHandler i _ => i end.

Definition rbody (h : ReadHandler) : list RCall :=
  match h with RHandler _ b => b end.

(** The members of the class; [read_handler] is [None] while the
    [std::function] is empty.  [delivered] records, in order, every call
    of a handler: its id and the data it received. *)
Record state : Type := mkState {
  data_queue : string;
  read_handler : option ReadHandler;
  is_waiting : bool;
  delivered : list (nat * string)
}.

(** [ReadDataCache(): is_waiting(false)]. *)
Definition init : state := mkState "" None false [].

Definition is_empty (d : string) : bool :=
  match d with EmptyString => true | _ => false end.

(** The calls a handler makes, given how [push_data] and [async_read]
    behave at the current nesting budget. *)
Fixpoint run_rcalls (push : string -> state -> option state)
    (read : ReadHandler -> state -> option state)
    (cs : list RCall) (s : state) : option state :=
  match cs with
  | [] => Some s
  | RCallPush d :: cs' =>
      match push d s with None => None | Some s' => run_rcalls push read cs' s' end
  | RCallRead h :: cs' =>
      match read h s with None => None | Some s' => run_rcalls push read cs' s' end
  end.

(** [push_data], [async_read] and the invocation of a handler (which may
    call both again).  [fuel] bounds the nesting of calls; [None] means it
    ran out, or an empty [std::function] was called. *)
Fixpoint push_data (fuel : nat) (d : string) (s : state) {struct fuel} : option state :=
  match fuel with
  | O => None
  | S f =>
      if is_waiting s then
        match read_handler s with
        | None => None
        | Some h => call f h d (mkState (data_queue s) (read_handler s) false (delivered s))
        end
      else Some (mkState (data_queue s ++ d) (read_handler s) (is_waiting s) (delivered s))
  end
with async_read (fuel : nat) (h : ReadHandler) (s : state) {struct fuel} : option state :=
  match fuel with
  | O => None
  | S f =>
      if is_empty (data_queue s) then
        Some (mkState (data_queue s) (Some h) true (delivered s))
      else
        match call f h (data_queue s) s with
        | None => None
        | Some s' => Some (mkState "" (read_handler s') (is_waiting s') (delivered s'))
        end
  end
with call (fuel : nat) (h : ReadHandler) (d : string) (s : state) {struct fuel} : option state :=
  match fuel with
  | O => None
  | S f =>
      run_rcalls (push_data f) (async_read f) (rbody h)
        (mkState (data_queue s) (read_handler s) (is_waiting s) (delivered s ++ [(rid h, d)]))
  end.

(** The owner calls [push_data] or [async_read] (with any nesting budget). *)
Inductive reachable : state -> Prop :=
| reach_init : reachable init
| reach_push : forall fuel d s s',
    reachable s -> push_data fuel d s = Some s' -> reachable s'
| reach_read : forall fuel h s s',
    reachable s -> async_read fuel h s = Some s' -> reachable s'.

End ReadDataCache.

(* ------------------------------------------------------------------ *)
(** ** The parts of Boost.Asio the connector and the TLS teardown use *)

Module Asio.

(** [boost::system::error_code]: [Success] converts to [false]. *)
Inductive error_code : Type :=
| Success
| OperationAborted
| Failure : string -> error_code.

Definition failed (e : error_code) : bool :=
  match e with Success => false | _ => true end.

Definition message (e : error_code) : string :=
  match e with
  | Success => "Success"
  | OperationAborted => "Operation canceled"
  | Failure m => m
  end.

Definition is_operation_aborted (e : error_code) : bool :=
  match e with OperationAborted => true | _ => false end.

(** A [steady_timer] with one [async_wait]: waiting, expired with its
    handler queued on the [io_context] (with the code it will receive), or
    handler already run.  As documented for [basic_waitable_timer::cancel],
    cancelling a waiting timer queues its handler with
    [operation_aborted], while a timer that has already expired keeps its
    queued handler and its success code. *)
Inductive timer : Type :=
| TimerWaiting
| TimerQueued : error_code -> timer
| TimerDone.

Definition expire (t : timer) : timer :=
  match t with TimerWaiting => TimerQueued Success | _ => t end.

Definition cancel (t : timer) : timer :=
  match t with TimerWaiting => TimerQueued OperationAborted | _ => t end.

(** An asynchronous socket operation, in the same three phases; cancelling
    or closing the socket aborts it only while it is still outstanding. *)
Inductive operation : Type :=
| OpWaiting
| OpQueued : error_code -> operation
| OpDone.

Definition abort (o : operation) : operation :=
  match o with OpWaiting => OpQueued OperationAborted | _ => o end.

End Asio.

(* ------------------------------------------------------------------ *)
(** ** connect_out_socket *)

Module Connector.
Import Asio.

Inductive level : Type := ALL | INFO | WARN | ERROR | FATAL | OFF.

Inductive protocol : Type := V4 | V6.

(** One entry of [resolver::results_type]. *)
Record endpoint : Type := mkEndpoint {
  address : string;
  protocol_of : protocol
}.

Inductive sockopt : Type := NoDelay | KeepAlive | FastOpenConnect.

(** What the connector does, in order. *)
Inductive effect : Type :=
| Log : string -> string -> level -> effect   (* _log_with_endpoint(in_endpoint, msg, level) *)
| Destroy                                     (* this_ptr->destroy() *)
| Open : protocol -> effect                   (* out_socket.open(protocol, ec) *)
| SetOption : sockopt -> effect               (* out_socket.set_option(...) *)
| StartTimer : Z -> effect                    (* expires_after + async_wait *)
| AsyncConnect : endpoint -> effect           (* out_socket.async_connect(...) *)
| CancelTimer                                 (* timeout_timer->cancel() *)
| Connected.                                  (* connected_handler() *)

(** The part of [this_ptr->config.tcp] the connector reads. *)
Record tcp_config : Type := mkTcpConfig {
  no_delay : bool;
  keep_alive : bool;
  fast_open : bool;
  connect_time_out : Z
}.

Section Attempt.
(** [tcp_fastopen_connect]: whether [TCP_FASTOPEN_CONNECT] is defined. *)
Variable tcp_fastopen_connect : bool.
Variable config : tcp_config.
Variables in_endpoint addr port : string.

Definition timeout_active : bool := (0 <? connect_time_out config)%Z.

(** The handler given to [resolver.async_resolve]; [open_ec] is the code
    [out_socket.open] stores into [ec]. *)
Definition resolve_handler (error : error_code) (results : list endpoint)
    (open_ec : error_code) : list effect :=
  match results with
  | e :: _ =>
      if failed error then
        [Log in_endpoint ("cannot resolve remote server hostname " ++ addr ++ ":" ++ port
                          ++ " reason: " ++ message error) ERROR; Destroy]
      else
        [Log in_endpoint (addr ++ " is resolved to " ++ address e) ALL; Open (protocol_of e)]
        ++ (if failed open_ec then [Destroy]
            else (if no_delay config then [SetOption NoDelay] else [])
              ++ (if keep_alive config then [SetOption KeepAlive] else [])
              ++ (if tcp_fastopen_connect && fast_open config
                  then [SetOption FastOpenConnect] else [])
              ++ (if timeout_active then [StartTimer (connect_time_out config)] else [])
              ++ [AsyncConnect e])
  | [] =>
      [Log in_endpoint ("cannot resolve remote server hostname " ++ addr ++ ":" ++ port
                        ++ " reason: " ++ message error) ERROR; Destroy]
  end.

(** The handler given to [timeout_timer->async_wait]. *)
Definition timer_handler (error : error_code) : list effect :=
  if failed error then []
  else [Log in_endpoint ("cannot establish connection to remote server " ++ addr ++ ":"
                         ++ port ++ " reason: timeout") ERROR; Destroy].

(** The handler given to [out_socket.async_connect]; [has_timer] is
    [bool(timeout_timer)]. *)
Definition connect_handler (has_timer : bool) (error : error_code) : list effect :=
  (if has_timer then [CancelTimer] else [])
  ++ (if failed error
      then [Log in_endpoint ("cannot establish connection to remote server " ++ addr ++ ":"
                             ++ port ++ " reason: " ++ message error) ERROR; Destroy]
      else [Connected]).

(** The attempt once [async_connect] is issued, on the [io_context]:
    [attempt_timer] is [None] when [timeout_timer] is a null pointer. *)
Record attempt : Type := mkAttempt {
  attempt_timer : option timer;
  attempt_connect : operation;
  attempt_effects : list effect
}.

Definition start_attempt (effects : list effect) : attempt :=
  mkAttempt (if timeout_active then Some TimerWaiting else None) OpWaiting effects.

(** What the event loop can do next: the deadline passes, the connect
    finishes, or a queued handler runs. *)
Inductive event : Type :=
| TimerExpires
| ConnectCompletes : error_code -> event
| RunTimerHandler
| RunConnectHandler.

Definition attempt_step (ev : event) (a : attempt) : option attempt :=
  match ev with
  | TimerExpires =>
      match attempt_timer a with
      | Some TimerWaiting =>
          Some (mkAttempt (Some (expire TimerWaiting)) (attempt_connect a) (attempt_effects a))
      | _ => None
      end
  | ConnectCompletes ec =>
      match attempt_connect a with
      | OpWaiting => Some (mkAttempt (attempt_timer a) (OpQueued ec) (attempt_effects a))
      | _ => None
      end
  | RunTimerHandler =>
      match attempt_timer a with
      | Some (TimerQueued ec) =>
          Some (mkAttempt (Some TimerDone) (attempt_connect a)
                  (attempt_effects a ++ timer_handler ec))
      | _ => None
      end
  | RunConnectHandler =>
      match attempt_connect a with
      | OpQueued ec =>
          let has_timer := match attempt_timer a with Some _ => true | None => false end in
          Some (mkAttempt (option_map cancel (attempt_timer a)) OpDone
                  (attempt_effects a ++ connect_handler has_timer ec))
      | _ => None
      end
  end.

Fixpoint run_attempt (evs : list event) (a : attempt) : option attempt :=
  match evs with
  | [] => Some a
  | ev :: evs' =>
      match attempt_step ev a with None => None | Some a' => run_attempt evs' a' end
  end.

End Attempt.

End Connector.

(* ------------------------------------------------------------------ *)
(** ** connect_remote_server_ssl *)

Module SslConnector.
Import Asio Connector.



End SslConnector.

(* ------------------------------------------------------------------ *)
(** ** shutdown_ssl_socket *)

Module Shutdown.
Import Asio.

(** The teardown of an open TLS socket on the [io_context]: the shutdown
    timer, the [async_shutdown] operation, whether the underlying socket is
    open, and how many times [ssl_shutdown_cb] ran past its
    [operation_aborted] check (each run calls [close] once). *)
Record teardown : Type := mkTeardown {
  shutdown_timer : timer;
  shutdown_op : operation;
  socket_open : bool;
  finalizer_runs : nat
}.

(** [shutdown_ssl_socket] on an open socket: [next_layer().cancel(ec)]
    (nothing is outstanding yet), [async_shutdown], then the 30 s timer. *)
Definition start : teardown := mkTeardown TimerWaiting OpWaiting true 0.

(** [ssl_shutdown_cb]: return on [operation_aborted]; otherwise cancel the
    timer, cancel, shut down and close the socket. *)
Definition ssl_shutdown_cb (error : error_code) (t : teardown) : teardown :=
  if is_operation_aborted error then t
  else mkTeardown (cancel (shutdown_timer t)) (abort (shutdown_op t)) false
         (S (finalizer_runs t)).

Inductive event : Type :=
| TimerExpires
| ShutdownCompletes : error_code -> event
| RunTimerHandler
| RunShutdownHandler.

Definition teardown_step (ev : event) (t : teardown) : option teardown :=
  match ev with
  | TimerExpires =>
      match shutdown_timer t with
      | TimerWaiting =>
          Some (mkTeardown (expire TimerWaiting) (shutdown_op t) (socket_open t) (finalizer_runs t))
      | _ => None
      end
  | ShutdownCompletes ec =>
      match shutdown_op t with
      | OpWaiting =>
          Some (mkTeardown (shutdown_timer t) (OpQueued ec) (socket_open t) (finalizer_runs t))
      | _ => None
      end
  | RunTimerHandler =>
      match shutdown_timer t with
      | TimerQueued ec =>
          Some (ssl_shutdown_cb ec
                  (mkTeardown TimerDone (shutdown_op t) (socket_open t) (finalizer_runs t)))
      | _ => None
      end
  | RunShutdownHandler =>
      match shutdown_op t with
      | OpQueued ec =>
          Some (ssl_shutdown_cb ec
                  (mkTeardown (shutdown_timer t) OpDone (socket_open t) (finalizer_runs t)))
      | _ => None
      end
  end.

Fixpoint run_teardown (evs : list event) (t : teardown) : option teardown :=
  match evs with
  | [] => Some t
  | ev :: evs' =>
      match teardown_step ev t with None => None | Some t' => run_teardown evs' t' end
  end.

End Shutdown.

(* ------------------------------------------------------------------ *)
(** ** Wire sizing and socket-option constants *)

Module Constants.

(** [#ifndef NAME / #define NAME literal / #endif]: the platform's value
    when the header defines one, the literal otherwise. *)
Definition ifndef (platform : option Z) (literal : Z) : Z :=
  match platform with Some v => v | None => literal end.

Definition SO_ORIGINAL_DST (platform : option Z) : Z := ifndef platform 80.
Definition IP6T_SO_ORIGINAL_DST (platform : option Z) : Z := ifndef platform 80.
Definition IP_RECVTTL (platform : option Z) : Z := ifndef platform 12.
Definition IPV6_RECVHOPLIMIT (platform : option Z) : Z := ifndef platform 51.
Definition IPV6_HOPLIMIT (platform : option Z) : Z := ifndef platform 21.
Definition IP_TTL (platform : option Z) : Z := ifndef platform 4.
Definition IP_TRANSPARENT (platform : option Z) : Z := ifndef platform 19.

(** [IP_RECVORIGDSTADDR] falls back to [IP_ORIGDSTADDR], then to 20. *)
Definition IP_RECVORIGDSTADDR (platform IP_ORIGDSTADDR : option Z) : Z :=
  ifndef platform (ifndef IP_ORIGDSTADDR 20).

(** [IPV6_RECVORIGDSTADDR] falls back to [IPV6_ORIGDSTADDR], then to 74. *)
Definition IPV6_RECVORIGDSTADDR (platform IPV6_ORIGDSTADDR : option Z) : Z :=
  ifndef platform (ifndef IPV6_ORIGDSTADDR 74).

Definition PACKET_HEADER_SIZE : Z := 1 + 28 + 2 + 64.
Definition DEFAULT_PACKET_SIZE : Z := 1397.

End Constants.

(* ================================================================== *)
(** * Proofs *)

(* ------------------------------------------------------------------ *)
(** ** SendDataCache *)

Module SendDataCacheProofs.
Import SendDataCache.
Local Open Scope list_scope.

(** *** The guard of [async_send] *)

Lemma async_send_idle (s : state) :
  is_empty (data_queue s) = true \/ connected s = false \/ is_async_sending s = true ->
  async_send s = s.
Proof.
  unfold async_send; intros [H | [H | H]]; rewrite H;
    [reflexivity | rewrite orb_true_r; reflexivity | rewrite !orb_true_r; reflexivity].
Qed.

Lemma async_send_start (s : state) :
  is_empty (data_queue s) = false -> connected s = true -> is_async_sending s = false ->
  async_send s =
  mkState [] "" (data_queue s) (sending_data_handler s ++ handler_queue s) true
    (connected s) (pending s ++ [data_queue s]) (written s ++ [data_queue s])
    (fired s) (pushed s).
Proof. unfold async_send; intros -> -> ->; reflexivity. Qed.

(** [async_send] either leaves the state alone or issues exactly one
    write; in both cases [fired] and [pushed] are untouched and the
    callbacks only move from [handler_queue] to the end of
    [sending_data_handler]. *)
Lemma async_send_cases (s : state) :
  async_send s = s \/
  async_send s =
  mkState [] "" (data_queue s) (sending_data_handler s ++ handler_queue s) true
    (connected s) (pending s ++ [data_queue s]) (written s ++ [data_queue s])
    (fired s) (pushed s).
Proof.
  unfold async_send.
  destruct (is_empty (data_queue s) || negb (connected s) || is_async_sending s);
    [left | right]; reflexivity.
Qed.

(** Induction principle for the body of a callback: a property kept by
    [push_data] and [insert_data] is kept by any sequence of such calls. *)
Lemma run_calls_keep (P : state -> Prop) :
  (forall d h s, P s -> P (push_data d h s)) ->
  (forall d s, P s -> P (insert_data d s)) ->
  forall cs s, P s -> P (run_calls cs s).
Proof.
  intros Hp Hi cs; induction cs as [| [d | d h] cs IH]; intros s Hs; simpl; auto.
Qed.

(** *** At most one write outstanding *)

Definition one_write (s : state) : Prop :=
  (is_async_sending s = true /\ length (pending s) = 1) \/
  (is_async_sending s = false /\ pending s = []).

Lemma async_send_one_write (s : state) : one_write s -> one_write (async_send s).
Proof.
  intros Hs; unfold async_send.
  destruct (is_empty (data_queue s) || negb (connected s) || is_async_sending s) eqn:G;
    [exact Hs |].
  apply orb_false_iff in G as [_ G]; unfold one_write in *; rewrite G in Hs.
  destruct Hs as [[Hs _] | [_ Hp]]; [discriminate |].
  left; simpl; rewrite Hp; split; reflexivity.
Qed.

Lemma push_data_one_write d h s : one_write s -> one_write (push_data d h s).
Proof. intros Hs; apply async_send_one_write; exact Hs. Qed.

Lemma insert_data_one_write d s : one_write s -> one_write (insert_data d s).
Proof. intros Hs; apply async_send_one_write; exact Hs. Qed.

Lemma fire_one_write h s : one_write s -> one_write (fire h s).
Proof.
  intros Hs; unfold fire.
  apply run_calls_keep; [exact push_data_one_write | exact insert_data_one_write | exact Hs].
Qed.

(** Induction principle for the firing loop. *)
Lemma fire_from_keep (P : state -> Prop) :
  (forall h s, P s -> P (fire h s)) ->
  forall fuel i s s', fire_from fuel i s = Some s' -> P s -> P s'.
Proof.
  intros Hf fuel; induction fuel as [| f IH]; intros i s s' E Hs; simpl in E;
    [discriminate |].
  destruct (nth_error (sending_data_handler s) i) as [h |].
  - exact (IH _ _ _ E (Hf _ _ Hs)).
  - injection E as <-; exact Hs.
Qed.

Lemma complete_one_write fuel ok s s' :
  one_write s -> complete fuel ok s = Some s' -> one_write s'.
Proof.
  unfold complete, on_sent; intros Hs E.
  destruct (pending s) as [| w ws] eqn:Hp; [discriminate |].
  assert (Hws : ws = []).
  { destruct Hs as [[_ Hl] | [_ Hn]]; rewrite Hp in *; [| discriminate].
    destruct ws; [reflexivity | simpl in Hl; lia]. }
  subst ws.
  assert (H1 : one_write (set_is_async_sending false (set_pending [] s))).
  { right; split; reflexivity. }
  destruct ok.
  - destruct (fire_from fuel 0 _) as [s2 |] eqn:F; [| discriminate].
    injection E as <-; apply async_send_one_write.
    apply (fire_from_keep one_write fire_one_write) in F; [| exact H1].
    exact F.
  - injection E as <-; exact H1.
Qed.

Lemma reachable_one_write s : reachable s -> one_write s.
Proof.
  induction 1 as [| s s' _ IH St].
  - right; split; reflexivity.
  - destruct St as [d h s | d s | b s | fuel ok s s' E].
    + apply push_data_one_write; exact IH.
    + apply insert_data_one_write; exact IH.
    + exact IH.
    + exact (complete_one_write _ _ _ _ IH E).
Qed.

(** Claim C1.  In every reachable state of a [SendDataCache] (any
    sequence of [push_data], [insert_data], connection changes and write
    completions, with callbacks that call back into the cache) at most one
    write handed to [async_writer] is outstanding, and [is_async_sending]
    holds exactly while one is.  [async_send] does nothing when the queue
    is empty, [is_connected()] is false or a write is in flight; otherwise
    it moves the whole queue (bytes and callbacks) into the in-flight
    buffers, clears the queue, sets [is_async_sending] and calls
    [async_writer] once with the snapshot.  While a write is in flight,
    [push_data] and [insert_data] only add to the queue. *)
Theorem async_send_single_write (s : state) :
  reachable s ->
  length (pending s) <= 1 /\
  (is_async_sending s = true <-> pending s <> []) /\
  (is_empty (data_queue s) = true \/ connected s = false \/ is_async_sending s = true ->
   async_send s = s) /\
  (is_empty (data_queue s) = false -> connected s = true -> is_async_sending s = false ->
   async_send s =
   mkState [] "" (data_queue s) (sending_data_handler s ++ handler_queue s) true
     (connected s) (pending s ++ [data_queue s]) (written s ++ [data_queue s])
     (fired s) (pushed s)) /\
  (forall d h, is_async_sending s = true ->
   push_data d h s =
   mkState (handler_queue s ++ [h]) (data_queue s ++ d) (sending_data_buff s)
     (sending_data_handler s) true (connected s) (pending s) (written s)
     (fired s) (pushed s ++ [hid h])) /\
  (forall d, is_async_sending s = true ->
   insert_data d s = set_data_queue (d ++ data_queue s) s).
Proof.
  intros R; pose proof (reachable_one_write s R) as Hw.
  split; [| split; [| split; [| split; [| split]]]].
  - destruct Hw as [[_ H] | [_ H]]; rewrite H; simpl; lia.
  - destruct Hw as [[Hf Hl] | [Hf Hp]]; rewrite Hf; split; intros H; try reflexivity.
    + intros E; rewrite E in Hl; discriminate.
    + discriminate.
    + contradiction.
  - exact (async_send_idle s).
  - exact (async_send_start s).
  - intros d h Hf; unfold push_data; rewrite async_send_idle; [rewrite Hf; reflexivity |].
    right; right; exact Hf.
  - intros d Hf; unfold insert_data; apply async_send_idle; right; right; exact Hf.
Qed.

Lemma async_send_single_write_witness :
  reachable (push_data "a" (Handler 1 []) init) /\
  length (pending (push_data "a" (Handler 1 []) init)) <= 1 /\
  is_async_sending (push_data "a" (Handler 1 []) init) = true.
Proof.
  assert (R : reachable (push_data "a" (Handler 1 []) init))
    by (apply (reach_step init); [exact reach_init | apply StepPush]).
  split; [exact R |].
  destruct (async_send_single_write _ R) as [L [_ _]].
  split; [exact L | reflexivity].
Defined.

(** *** Callbacks fire in [push_data] order *)

(** The callbacks already fired, then those in flight from index [i] on,
    then those still queued, are the callbacks passed to [push_data], in
    order. *)
Definition order_from (i : nat) (s : state) : Prop :=
  i <= length (sending_data_handler s) /\
  fired s ++ map hid (skipn i (sending_data_handler s) ++ handler_queue s) = pushed s.

Lemma async_send_order_from i s : order_from i s -> order_from i (async_send s).
Proof.
  intros [Hi Ho]; destruct (async_send_cases s) as [-> | ->]; [split; assumption |].
  unfold order_from; simpl; split.
  - rewrite length_app; lia.
  - rewrite skipn_app, app_nil_r.
    replace (i - length (sending_data_handler s)) with 0 by lia; exact Ho.
Qed.

Lemma push_data_order_from i d h s : order_from i s -> order_from i (push_data d h s).
Proof.
  intros [Hi Ho]; apply async_send_order_from; split; [exact Hi |]; simpl.
  rewrite <- Ho, app_assoc, map_app, app_assoc; reflexivity.
Qed.

Lemma insert_data_order_from i d s : order_from i s -> order_from i (insert_data d s).
Proof. intros H; apply async_send_order_from; exact H. Qed.

Lemma skipn_nth_error {A} (l : list A) i x :
  nth_error l i = Some x -> skipn i l = x :: skipn (S i) l.
Proof.
  revert l; induction i as [| i IH]; intros [| y l] E; simpl in *; try discriminate.
  - injection E as ->; reflexivity.
  - exact (IH l E).
Qed.

Lemma fire_order_from i h s :
  nth_error (sending_data_handler s) i = Some h ->
  order_from i s -> order_from (S i) (fire h s).
Proof.
  intros E [Hi Ho]; unfold fire.
  apply run_calls_keep; [intros; apply push_data_order_from; assumption
                        | intros; apply insert_data_order_from; assumption |].
  split; simpl.
  - apply nth_error_Some; rewrite E; discriminate.
  - rewrite <- Ho, (skipn_nth_error _ _ _ E); simpl; rewrite <- app_assoc; reflexivity.
Qed.

Lemma fire_from_order fuel i s s' :
  fire_from fuel i s = Some s' -> order_from i s ->
  fired s' ++ map hid (handler_queue s') = pushed s'.
Proof.
  revert i s; induction fuel as [| f IH]; intros i s E Ho; simpl in E; [discriminate |].
  destruct (nth_error (sending_data_handler s) i) as [h |] eqn:N.
  - exact (IH _ _ E (fire_order_from _ _ _ N Ho)).
  - injection E as <-; destruct Ho as [_ Ho].
    apply nth_error_None in N; rewrite skipn_all2 in Ho by exact N; exact Ho.
Qed.

Lemma complete_order fuel ok s s' :
  order_from 0 s -> complete fuel ok s = Some s' -> order_from 0 s'.
Proof.
  unfold complete, on_sent; intros Ho E.
  destruct (pending s) as [| w ws]; [discriminate |].
  assert (H1 : order_from 0 (set_is_async_sending false (set_pending ws s))) by exact Ho.
  destruct ok.
  - destruct (fire_from fuel 0 _) as [s2 |] eqn:F; [| discriminate].
    injection E as <-; apply async_send_order_from.
    split; [simpl; lia |]; exact (fire_from_order _ _ _ _ F H1).
  - injection E as <-; exact H1.
Qed.

Lemma reachable_order s : reachable s -> order_from 0 s.
Proof.
  induction 1 as [| s s' _ IH St].
  - split; reflexivity.
  - destruct St as [d h s | d s | b s | fuel ok s s' E].
    + apply push_data_order_from; exact IH.
    + apply insert_data_order_from; exact IH.
    + exact IH.
    + exact (complete_order _ _ _ _ IH E).
Qed.

(** *** The firing loop fires the in-flight callbacks first *)

Lemma run_calls_grow cs s :
  (exists e, sending_data_handler (run_calls cs s) = sending_data_handler s ++ e) /\
  fired (run_calls cs s) = fired s.
Proof.
  apply (run_calls_keep (fun t => (exists e, sending_data_handler t = sending_data_handler s ++ e)
                                  /\ fired t = fired s)).
  - intros d h t [[e He] Hf]; unfold push_data.
    destruct (async_send_cases (mkState (handler_queue t ++ [h]) (data_queue t ++ d)
      (sending_data_buff t) (sending_data_handler t) (is_async_sending t) (connected t)
      (pending t) (written t) (fired t) (pushed t ++ [hid h]))) as [-> | ->];
      simpl; (split; [| exact Hf]).
    + exists e; exact He.
    + exists (e ++ handler_queue t ++ [h]); rewrite He, !app_assoc; reflexivity.
  - intros d t [[e He] Hf]; unfold insert_data.
    destruct (async_send_cases (set_data_queue (d ++ data_queue t) t)) as [-> | ->];
      simpl; (split; [| exact Hf]).
    + exists e; exact He.
    + exists (e ++ handler_queue t); rewrite He, !app_assoc; reflexivity.
  - split; [exists []; rewrite app_nil_r |]; reflexivity.
Qed.

Lemma fire_from_prefix fuel i s s' :
  fire_from fuel i s = Some s' -> i <= length (sending_data_handler s) ->
  (exists e, sending_data_handler s' = sending_data_handler s ++ e) /\
  fired s' = fired s ++ map hid (skipn i (sending_data_handler s')).
Proof.
  revert i s; induction fuel as [| f IH]; intros i s E Hi; simpl in E; [discriminate |].
  destruct (nth_error (sending_data_handler s) i) as [h |] eqn:N.
  - assert (Hlt : i < length (sending_data_handler s))
      by (apply nth_error_Some; rewrite N; discriminate).
    destruct (run_calls_grow (hbody h) (set_fired (fired s ++ [hid h]) s))
      as [[e1 He1] Hf1].
    fold (fire h s) in He1, Hf1; simpl in He1, Hf1.
    destruct (IH _ _ E) as [[e2 He2] Hf2]; [rewrite He1, length_app; lia |].
    assert (N' : nth_error (sending_data_handler s') i = Some h)
      by (rewrite He2, He1, <- app_assoc, nth_error_app1 by exact Hlt; exact N).
    split.
    + exists (e1 ++ e2); rewrite He2, He1, app_assoc; reflexivity.
    + rewrite Hf2, Hf1, (skipn_nth_error _ _ _ N'), <- app_assoc; reflexivity.
  - injection E as <-; split; [exists []; rewrite app_nil_r; reflexivity |].
    apply nth_error_None in N; rewrite skipn_all2 by exact N; rewrite app_nil_r; reflexivity.
Qed.

(** Callbacks whose body makes no call on the cache. *)
Definition plain (h : SentHandler) : Prop := hbody h = [].

Lemma set_fired_same s : set_fired (fired s) s = s.
Proof. destruct s; reflexivity. Qed.

Lemma fire_from_plain fuel i s :
  Forall plain (sending_data_handler s) ->
  length (sending_data_handler s) - i < fuel ->
  fire_from fuel i s =
  Some (set_fired (fired s ++ map hid (skipn i (sending_data_handler s))) s).
Proof.
  revert i s; induction fuel as [| f IH]; intros i s Hp Hf; [lia |]; simpl.
  destruct (nth_error (sending_data_handler s) i) as [h |] eqn:N.
  - assert (Hlt : i < length (sending_data_handler s))
      by (apply nth_error_Some; rewrite N; discriminate).
    assert (Hh : plain h)
      by (rewrite Forall_forall in Hp; apply Hp; exact (nth_error_In _ _ N)).
    unfold fire; rewrite Hh; simpl.
    rewrite IH by (simpl; first [exact Hp | lia]); simpl.
    rewrite (skipn_nth_error _ _ _ N), <- app_assoc; reflexivity.
  - apply nth_error_None in N; rewrite skipn_all2 by exact N.
    rewrite app_nil_r, set_fired_same; reflexivity.
Qed.

Lemma async_send_fired s : fired (async_send s) = fired s.
Proof. destruct (async_send_cases s) as [-> | ->]; reflexivity. Qed.

(** Claim C2.  In every reachable state the callbacks already fired,
    followed by the in-flight ones and the queued ones, are exactly the
    callbacks passed to [push_data], in call order: each fires at most once
    and they fire as [c1, c2, ...].  When the in-flight write completes
    successfully, every in-flight callback fires, in that order, before
    anything else; and when those callbacks make no call on the cache, the
    completion amounts to: fire them all in order, clear the in-flight
    record, clear [is_async_sending] and run [async_send] again on the
    data queued meanwhile. *)
Theorem sent_callbacks_fire_in_order (s : state) :
  reachable s ->
  fired s ++ map hid (sending_data_handler s ++ handler_queue s) = pushed s /\
  (forall fuel s', complete fuel true s = Some s' ->
   (exists extra, fired s' = fired s ++ map hid (sending_data_handler s) ++ extra) /\
   fired s' ++ map hid (sending_data_handler s' ++ handler_queue s') = pushed s') /\
  (forall fuel w ws, pending s = w :: ws -> Forall plain (sending_data_handler s) ->
   length (sending_data_handler s) < fuel ->
   complete fuel true s =
   Some (async_send
     (mkState (handler_queue s) (data_queue s) (sending_data_buff s) [] false
        (connected s) ws (written s) (fired s ++ map hid (sending_data_handler s))
        (pushed s)))).
Proof.
  intros R; split; [| split].
  - exact (proj2 (reachable_order s R)).
  - intros fuel s' E; split.
    + unfold complete, on_sent in E.
      destruct (pending s) as [| w ws]; [discriminate |].
      destruct (fire_from fuel 0 _) as [s2 |] eqn:F; [| discriminate].
      injection E as <-.
      destruct (fire_from_prefix _ _ _ _ F) as [[e He] Hf]; [simpl; lia |].
      rewrite async_send_fired; simpl; rewrite Hf, He; simpl.
      exists (map hid e); rewrite map_app; reflexivity.
    + exact (proj2 (reachable_order s' (reach_step _ _ R (StepComplete _ _ _ _ E)))).
  - intros fuel w ws Hp Hplain Hf; unfold complete, on_sent; rewrite Hp.
    rewrite fire_from_plain by (simpl; first [exact Hplain | lia]); reflexivity.
Qed.

Lemma sent_callbacks_fire_in_order_witness :
  reachable (push_data "a" (Handler 1 []) init) /\
  complete 2 true (push_data "a" (Handler 1 []) init) =
  Some (async_send (mkState [] "" "a" [] false true [] ["a"] [1] [1])).
Proof.
  assert (R : reachable (push_data "a" (Handler 1 []) init))
    by (apply (reach_step init); [exact reach_init | apply StepPush]).
  split; [exact R |].
  destruct (sent_callbacks_fire_in_order _ R) as [_ [_ Plain]].
  apply (Plain 2 "a" []); [reflexivity | repeat constructor | simpl; lia].
Defined.

(** *** Failed writes *)

(** Claim C3 (failing run).  [push_data("a", c1)] starts a write that
    fails: no callback fires, but [c1] stays in [sending_data_handler]
    (only the success path clears it).  After [push_data("b", c2)] and a
    successful write of ["b"] alone, both [c1] and [c2] fire. *)
Theorem failed_segment_callback_fires_later :
  match complete 1 false (push_data "a" (Handler 1 []) init) with
  | Some s2 =>
      fired s2 = [] /\ is_async_sending s2 = false /\
      sending_data_handler s2 = [Handler 1 []] /\
      match complete 3 true (push_data "b" (Handler 2 []) s2) with
      | Some s4 => written s4 = ["a"; "b"] /\ fired s4 = [1; 2]
      | None => False
      end
  | None => False
  end.
Proof. vm_compute; repeat split. Qed.

(** *** Re-entrant pushes *)

(** Claim C4 (failing run).  Callback [c1] calls [push_data("b", c2)].
    When the write of ["a"] succeeds, [is_async_sending] is already false,
    so the re-entrant push starts the write of ["b"] and appends [c2] to
    [sending_data_handler]; the loop, which re-reads the size, then fires
    [c2] while ["b"] is still outstanding.  When that write later
    completes, nothing fires any more. *)
Theorem reentrant_push_fires_before_sent :
  match complete 3 true
          (push_data "a" (Handler 1 [CallPush "b" (Handler 2 [])]) init) with
  | Some s2 =>
      fired s2 = [1; 2] /\ pending s2 = ["b"] /\
      option_map fired (complete 3 true s2) = Some [1; 2] /\
      option_map fired (complete 3 false s2) = Some [1; 2]
  | None => False
  end.
Proof. vm_compute; repeat split. Qed.

(** *** Priority data *)

(** Claim C5.  [insert_data(d)] puts [d] in front of the queued bytes
    [data_queue] and adds no callback: the bytes either go to
    [async_writer] at once as [d ++ data_queue], or stay queued as
    [d ++ data_queue].  [push_data(b, h)] puts [b] after the queued bytes
    and [h] after the queued callbacks. *)
Theorem insert_data_prepends (d : string) (s : state) :
  ((written (insert_data d s) = written s ++ [(d ++ data_queue s)%string] /\
    data_queue (insert_data d s) = "") \/
   (written (insert_data d s) = written s /\
    data_queue (insert_data d s) = (d ++ data_queue s)%string)) /\
  sending_data_handler (insert_data d s) ++ handler_queue (insert_data d s)
    = sending_data_handler s ++ handler_queue s /\
  pushed (insert_data d s) = pushed s /\
  fired (insert_data d s) = fired s /\
  (forall b h,
   ((written (push_data b h s) = written s ++ [(data_queue s ++ b)%string] /\
     data_queue (push_data b h s) = "") \/
    (written (push_data b h s) = written s /\
     data_queue (push_data b h s) = (data_queue s ++ b)%string)) /\
   sending_data_handler (push_data b h s) ++ handler_queue (push_data b h s)
     = sending_data_handler s ++ handler_queue s ++ [h]).
Proof.
  split; [| split; [| split; [| split]]].
  - unfold insert_data.
    destruct (async_send_cases (set_data_queue (d ++ data_queue s) s)) as [-> | ->];
      [right | left]; split; reflexivity.
  - unfold insert_data.
    destruct (async_send_cases (set_data_queue (d ++ data_queue s) s)) as [-> | ->];
      simpl; [| rewrite app_nil_r]; reflexivity.
  - unfold insert_data; destruct (async_send_cases (set_data_queue (d ++ data_queue s) s))
      as [-> | ->]; reflexivity.
  - unfold insert_data; rewrite async_send_fired; reflexivity.
  - intros b h; unfold push_data.
    destruct (async_send_cases (mkState (handler_queue s ++ [h]) (data_queue s ++ b)
      (sending_data_buff s) (sending_data_handler s) (is_async_sending s) (connected s)
      (pending s) (written s) (fired s) (pushed s ++ [hid h]))) as [-> | ->]; simpl;
      (split; [| rewrite ?app_nil_r, ?app_assoc; reflexivity]); [right | left];
      split; reflexivity.
Qed.

(** *** Further properties of the coalescer *)

Fixpoint concat_all (l : list string) : string :=
  match l with [] => "" | w :: l' => (w ++ concat_all l')%string end.

Lemma str_append_assoc (a b c : string) : (a ++ (b ++ c) = (a ++ b) ++ c)%string.
Proof. induction a as [| x a IH]; simpl; [reflexivity | rewrite IH; reflexivity]. Qed.

Lemma str_append_nil_r (a : string) : (a ++ "" = a)%string.
Proof. induction a as [| x a IH]; simpl; [reflexivity | rewrite IH; reflexivity]. Qed.

Lemma concat_all_snoc l w : concat_all (l ++ [w]) = (concat_all l ++ w)%string.
Proof.
  induction l as [| x l IH]; simpl; [rewrite !str_append_nil_r; reflexivity |].
  rewrite IH, str_append_assoc; reflexivity.
Qed.

(** The bytes handed to [async_writer] so far, followed by the queue. *)
Definition byte_stream (s : state) : string :=
  (concat_all (written s) ++ data_queue s)%string.

Lemma async_send_byte_stream s : byte_stream (async_send s) = byte_stream s.
Proof.
  unfold byte_stream; destruct (async_send_cases s) as [-> | ->]; simpl; [reflexivity |].
  rewrite concat_all_snoc, str_append_nil_r; reflexivity.
Qed.

Lemma fire_from_plain_stream fuel i s s' :
  Forall plain (sending_data_handler s) -> fire_from fuel i s = Some s' ->
  byte_stream s' = byte_stream s /\ sending_data_handler s' = sending_data_handler s.
Proof.
  revert i s; induction fuel as [| f IH]; intros i s Hp E; simpl in E; [discriminate |].
  destruct (nth_error (sending_data_handler s) i) as [h |] eqn:N.
  - assert (Hh : plain h)
      by (rewrite Forall_forall in Hp; apply Hp; exact (nth_error_In _ _ N)).
    unfold fire in E; rewrite Hh in E; simpl in E.
    destruct (IH (S i) (set_fired (fired s ++ [hid h]) s) Hp E) as [H1 H2]; split; assumption.
  - injection E as <-; split; reflexivity.
Qed.

(** Extra: the coalescer never loses, duplicates or reorders bytes.
    [push_data(d)] appends [d] to the stream of bytes written so far
    followed by the queued bytes; [insert_data(d)] puts [d] between the
    bytes already written and the queued ones; a change of connection
    status leaves the stream alone, and so does a write completion whose
    callbacks make no call on the cache (failed bytes stay counted once:
    they are not sent again). *)
Theorem byte_stream_preserved (s : state) :
  (forall d h, byte_stream (push_data d h s) = (byte_stream s ++ d)%string) /\
  (forall d, byte_stream (insert_data d s) =
             (concat_all (written s) ++ d ++ data_queue s)%string) /\
  (forall b, byte_stream (set_connected b s) = byte_stream s) /\
  (forall fuel ok s', Forall plain (sending_data_handler s) ->
   complete fuel ok s = Some s' -> byte_stream s' = byte_stream s).
Proof.
  split; [| split; [| split]].
  - intros d h; unfold push_data; rewrite async_send_byte_stream.
    unfold byte_stream; simpl; rewrite str_append_assoc; reflexivity.
  - intros d; unfold insert_data; rewrite async_send_byte_stream; reflexivity.
  - intros b; reflexivity.
  - intros fuel ok s' Hp E; unfold complete, on_sent in E.
    destruct (pending s) as [| w ws]; [discriminate |].
    destruct ok.
    + destruct (fire_from fuel 0 _) as [s2 |] eqn:F; [| discriminate].
      injection E as <-; rewrite async_send_byte_stream.
      destruct (fire_from_plain_stream _ _ (set_is_async_sending false (set_pending ws s)) _ Hp F)
        as [H1 _]; exact H1.
    + injection E as <-; reflexivity.
Qed.

Lemma byte_stream_preserved_witness :
  Forall plain (sending_data_handler (push_data "a" (Handler 1 []) init)) /\
  complete 2 true (push_data "a" (Handler 1 []) init) =
    Some (async_send (mkState [] "" "a" [] false true [] ["a"] [1] [1])) /\
  byte_stream (async_send (mkState [] "" "a" [] false true [] ["a"] [1] [1])) =
    byte_stream (push_data "a" (Handler 1 []) init).
Proof.
  split; [repeat constructor | split; [reflexivity |]].
  destruct (byte_stream_preserved (push_data "a" (Handler 1 []) init)) as (_ & _ & _ & C).
  exact (C 2 true _ ltac:(repeat constructor) eq_refl).
Defined.

(** Writes are never empty *)

Definition nonempty_writes (s : state) : Prop :=
  Forall (fun w => w <> "") (written s) /\ Forall (fun w => w <> "") (pending s).

Lemma async_send_nonempty s : nonempty_writes s -> nonempty_writes (async_send s).
Proof.
  intros [Hw Hp]; unfold async_send.
  destruct (is_empty (data_queue s) || negb (connected s) || is_async_sending s) eqn:G;
    [split; assumption |].
  apply orb_false_iff in G as [G _]; apply orb_false_iff in G as [G _].
  assert (Ne : data_queue s <> "") by (intros E; rewrite E in G; discriminate).
  split; simpl; apply Forall_app; split; auto.
Qed.

(** Extra: in every reachable state (callbacks may call back into the
    cache) every buffer ever handed to [async_writer] is non-empty: the
    empty-queue test of [async_send] is never bypassed. *)
Theorem writes_never_empty (s : state) :
  reachable s -> Forall (fun w => w <> "") (written s) /\ Forall (fun w => w <> "") (pending s).
Proof.
  intros R; fold (nonempty_writes s); induction R as [| s s' _ IH St].
  - split; constructor.
  - destruct St as [d h s | d s | b s | fuel ok s s' E].
    + apply async_send_nonempty; exact IH.
    + apply async_send_nonempty; exact IH.
    + exact IH.
    + unfold complete, on_sent in E; destruct IH as [Hw Hp].
      destruct (pending s) as [| w ws] eqn:P; [discriminate |].
      assert (H1 : nonempty_writes (set_is_async_sending false (set_pending ws s)))
        by (split; [exact Hw | inversion Hp; assumption]).
      destruct ok.
      * destruct (fire_from fuel 0 _) as [s2 |] eqn:F; [| discriminate].
        injection E as <-; apply async_send_nonempty.
        refine (fire_from_keep nonempty_writes _ _ _ _ _ F H1).
        intros h t Ht; unfold fire; apply run_calls_keep;
          [intros; apply async_send_nonempty; assumption
          | intros; apply async_send_nonempty; assumption | exact Ht].
      * injection E as <-; exact H1.
Qed.

Lemma writes_never_empty_witness :
  reachable (push_data "a" (Handler 1 []) init) /\
  Forall (fun w => w <> "") (written (push_data "a" (Handler 1 []) init)).
Proof.
  assert (R : reachable (push_data "a" (Handler 1 []) init))
    by (apply (reach_step init); [exact reach_init | apply StepPush]).
  split; [exact R | exact (proj1 (writes_never_empty _ R))].
Defined.

(** Extra: while [is_connected()] is false, [push_data] and [insert_data]
    start no write and only grow the queue; turning the connection back on
    starts no write either, the queued bytes wait for the next
    [push_data], [insert_data] or completion. *)
Theorem disconnected_only_queues (s : state) :
  connected s = false ->
  (forall d h, written (push_data d h s) = written s /\ pending (push_data d h s) = pending s /\
               data_queue (push_data d h s) = (data_queue s ++ d)%string) /\
  (forall d, written (insert_data d s) = written s /\ pending (insert_data d s) = pending s /\
             data_queue (insert_data d s) = (d ++ data_queue s)%string) /\
  set_connected true s = mkState (handler_queue s) (data_queue s) (sending_data_buff s)
    (sending_data_handler s) (is_async_sending s) true (pending s) (written s) (fired s) (pushed s).
Proof.
  intros C; split; [| split].
  - intros d h; unfold push_data; rewrite async_send_idle by (right; left; exact C).
    repeat split.
  - intros d; unfold insert_data; rewrite async_send_idle by (right; left; exact C).
    repeat split.
  - reflexivity.
Qed.

Lemma disconnected_only_queues_witness :
  connected (set_connected false init) = false /\
  written (push_data "a" (Handler 1 []) (set_connected false init)) = [].
Proof.
  split; [reflexivity |].
  exact (proj1 ((proj1 (disconnected_only_queues (set_connected false init) eq_refl))
                   "a" (Handler 1 []))).
Defined.

(** Extra: [push_data("", h)] on an empty queue starts no write: [h] only
    joins [handler_queue], where it waits until some later non-empty data
    is sent with it. *)
Theorem empty_push_waits (h : SentHandler) (s : state) :
  data_queue s = "" ->
  push_data "" h s =
  mkState (handler_queue s ++ [h]) "" (sending_data_buff s) (sending_data_handler s)
    (is_async_sending s) (connected s) (pending s) (written s) (fired s) (pushed s ++ [hid h]).
Proof.
  intros E; unfold push_data; rewrite async_send_idle; simpl; rewrite E; [reflexivity |].
  left; reflexivity.
Qed.

Lemma empty_push_waits_witness :
  data_queue init = "" /\
  written (push_data "" (Handler 1 []) init) = [] /\
  handler_queue (push_data "" (Handler 1 []) init) = [Handler 1 []].
Proof.
  split; [reflexivity |].
  rewrite (empty_push_waits (Handler 1 []) init eq_refl); split; reflexivity.
Defined.

End SendDataCacheProofs.

(* ------------------------------------------------------------------ *)
(** ** ReadDataCache *)

Module ReadDataCacheProofs.
Import ReadDataCache.
Local Open Scope list_scope.

(** Induction principle for the body of a handler. *)
Lemma run_rcalls_keep (P : state -> Prop) push read :
  (forall d s s', P s -> push d s = Some s' -> P s') ->
  (forall h s s', P s -> read h s = Some s' -> P s') ->
  forall cs s s', P s -> run_rcalls push read cs s = Some s' -> P s'.
Proof.
  intros Hp Hr cs; induction cs as [| [d | h] cs IH]; intros s s' Hs E; simpl in E.
  - injection E as <-; exact Hs.
  - destruct (push d s) as [t |] eqn:T; [exact (IH _ _ (Hp _ _ _ Hs T) E) | discriminate].
  - destruct (read h s) as [t |] eqn:T; [exact (IH _ _ (Hr _ _ _ Hs T) E) | discriminate].
Qed.

Lemma is_empty_true d : is_empty d = true -> d = "".
Proof. destruct d; [reflexivity | discriminate]. Qed.

Lemma is_empty_false d : d <> "" -> is_empty d = false.
Proof. destruct d; [contradiction | reflexivity]. Qed.

(** Buffered bytes and a waiting consumer never coexist. *)
Definition not_both (s : state) : Prop := is_waiting s = true -> data_queue s = "".

Lemma ops_not_both fuel :
  (forall d s s', not_both s -> push_data fuel d s = Some s' -> not_both s') /\
  (forall h s s', not_both s -> async_read fuel h s = Some s' -> not_both s') /\
  (forall h d s s', not_both s -> call fuel h d s = Some s' -> not_both s').
Proof.
  induction fuel as [| f [IHp [IHr IHc]]]; [repeat split; discriminate |].
  split; [| split].
  - intros d s s' Hs E; simpl in E.
    destruct (is_waiting s) eqn:W.
    + destruct (read_handler s) as [h |]; [| discriminate].
      refine (IHc _ _ _ _ _ E); intros H; discriminate.
    + injection E as <-; intros H; discriminate.
  - intros h s s' Hs E; simpl in E.
    destruct (is_empty (data_queue s)) eqn:Em.
    + injection E as <-; intros _; exact (is_empty_true _ Em).
    + destruct (call f h (data_queue s) s) as [t |]; [| discriminate].
      injection E as <-; intros _; reflexivity.
  - intros h d s s' Hs E; simpl in E.
    refine (run_rcalls_keep not_both _ _ IHp IHr _ _ _ _ E); exact Hs.
Qed.

Lemma reachable_not_both s : reachable s -> not_both s.
Proof.
  induction 1 as [| fuel d s s' _ IH E | fuel h s s' _ IH E].
  - intros H; discriminate.
  - exact (proj1 (ops_not_both fuel) _ _ _ IH E).
  - exact (proj1 (proj2 (ops_not_both fuel)) _ _ _ IH E).
Qed.

(** Deliveries are only ever added. *)
Definition extends (base : list (nat * string)) (s : state) : Prop :=
  exists l, delivered s = base ++ l.

Lemma ops_extend fuel :
  (forall d s s' base, extends base s -> push_data fuel d s = Some s' -> extends base s') /\
  (forall h s s' base, extends base s -> async_read fuel h s = Some s' -> extends base s') /\
  (forall h d s s' base, extends base s -> call fuel h d s = Some s' -> extends base s').
Proof.
  induction fuel as [| f [IHp [IHr IHc]]]; [repeat split; discriminate |].
  split; [| split].
  - intros d s s' base Hs E; simpl in E.
    destruct (is_waiting s).
    + destruct (read_handler s) as [h |]; [| discriminate]; refine (IHc _ _ _ _ _ _ E); exact Hs.
    + injection E as <-; exact Hs.
  - intros h s s' base Hs E; simpl in E.
    destruct (is_empty (data_queue s)).
    + injection E as <-; exact Hs.
    + destruct (call f h (data_queue s) s) as [t |] eqn:C; [| discriminate].
      injection E as <-; exact (IHc _ _ _ _ _ Hs C).
  - intros h d s s' base [l Hl] E; simpl in E.
    refine (run_rcalls_keep (extends base) _ _ (fun d s s' => IHp d s s' base)
              (fun h s s' => IHr h s s' base) _ _ _ _ E).
    exists (l ++ [(rid h, d)]); simpl; rewrite Hl, app_assoc; reflexivity.
Qed.

Lemma call_delivers_first fuel h d s s' :
  call fuel h d s = Some s' -> exists rest, delivered s' = delivered s ++ (rid h, d) :: rest.
Proof.
  destruct fuel as [| f]; intros E; [discriminate |]; simpl in E.
  assert (H0 : extends (delivered s ++ [(rid h, d)])
                 (mkState (data_queue s) (read_handler s) (is_waiting s)
                    (delivered s ++ [(rid h, d)])))
    by (exists []; rewrite app_nil_r; reflexivity).
  destruct (run_rcalls_keep (extends (delivered s ++ [(rid h, d)])) _ _
              (fun d s s' => proj1 (ops_extend f) d s s' _)
              (fun h s s' => proj1 (proj2 (ops_extend f)) h s s' _)
              _ _ _ H0 E) as [l Hl].
  exists l; rewrite Hl, <- app_assoc; reflexivity.
Qed.

(** Claim C6.  In every reachable state of a [ReadDataCache] (handlers
    may call back into it) buffered bytes and a waiting consumer never
    coexist.  [push_data(d)] with a waiting consumer [h] clears
    [is_waiting] and hands [d] to [h] before anything else is delivered;
    without one it appends [d] to the buffer.  [async_read(h)] on a
    non-empty buffer hands the whole buffer to [h] and leaves the buffer
    empty; on an empty buffer it records [h] as the waiting consumer.
    From the initial state, [push("x")] then [async_read(h)], and
    [async_read(h)] then [push("x")], both deliver ["x"] to [h] first. *)
Theorem read_cache_contract :
  (forall s, reachable s -> ~ (data_queue s <> "" /\ is_waiting s = true)) /\
  (forall fuel d h s s', is_waiting s = true -> read_handler s = Some h ->
   push_data fuel d s = Some s' ->
   exists rest, delivered s' = delivered s ++ (rid h, d) :: rest) /\
  (forall n d h s, is_waiting s = true -> read_handler s = Some h -> rbody h = [] ->
   push_data (S (S n)) d s =
   Some (mkState (data_queue s) (Some h) false (delivered s ++ [(rid h, d)]))) /\
  (forall n d s, is_waiting s = false ->
   push_data (S n) d s =
   Some (mkState (data_queue s ++ d) (read_handler s) false (delivered s))) /\
  (forall fuel h s s', data_queue s <> "" -> async_read fuel h s = Some s' ->
   data_queue s' = "" /\
   exists rest, delivered s' = delivered s ++ (rid h, data_queue s) :: rest) /\
  (forall n h s, data_queue s <> "" -> rbody h = [] ->
   async_read (S (S n)) h s =
   Some (mkState "" (read_handler s) (is_waiting s) (delivered s ++ [(rid h, data_queue s)]))) /\
  (forall n h s, data_queue s = "" ->
   async_read (S n) h s = Some (mkState "" (Some h) true (delivered s))) /\
  (forall n m h s1 s2, push_data n "x" init = Some s1 -> async_read m h s1 = Some s2 ->
   exists rest, delivered s2 = (rid h, "x") :: rest) /\
  (forall n m h s1 s2, async_read n h init = Some s1 -> push_data m "x" s1 = Some s2 ->
   exists rest, delivered s2 = (rid h, "x") :: rest).
Proof.
  assert (Push : forall fuel d h s s', is_waiting s = true -> read_handler s = Some h ->
            push_data fuel d s = Some s' ->
            exists rest, delivered s' = delivered s ++ (rid h, d) :: rest).
  { intros [| f] d h s s' W Hh E; [discriminate |]; simpl in E; rewrite W, Hh in E.
    exact (call_delivers_first _ _ _ _ _ E). }
  assert (Read : forall fuel h s s', data_queue s <> "" -> async_read fuel h s = Some s' ->
            data_queue s' = "" /\
            exists rest, delivered s' = delivered s ++ (rid h, data_queue s) :: rest).
  { intros [| f] h s s' Ne E; [discriminate |]; simpl in E.
    rewrite (is_empty_false _ Ne) in E.
    destruct (call f h (data_queue s) s) as [t |] eqn:C; [| discriminate].
    injection E as <-; split; [reflexivity |]; exact (call_delivers_first _ _ _ _ _ C). }
  split; [| split; [| split; [| split; [| split; [| split; [| split; [| split]]]]]]].
  - intros s R [Ne W]; exact (Ne (reachable_not_both s R W)).
  - exact Push.
  - intros n d h s W Hh Hb; simpl; rewrite W, Hh; simpl; rewrite Hb; reflexivity.
  - intros n d s W; simpl; rewrite W; reflexivity.
  - exact Read.
  - intros n h s Ne Hb; simpl; rewrite (is_empty_false _ Ne); simpl; rewrite Hb; reflexivity.
  - intros n h s Em; simpl; rewrite Em; reflexivity.
  - intros [| n] m h s1 s2 E1 E2; [discriminate |]; simpl in E1; injection E1 as <-.
    assert (Ne : data_queue {| data_queue := "" ++ "x"; read_handler := None;
                               is_waiting := false; delivered := [] |} <> "")
      by discriminate.
    destruct (Read _ _ _ _ Ne E2) as [_ [rest Hr]].
    exists rest; exact Hr.
  - intros [| n] m h s1 s2 E1 E2; [discriminate |]; simpl in E1; injection E1 as <-.
    exact (Push _ _ _ _ _ (eq_refl : is_waiting (mkState "" (Some h) true []) = true)
             eq_refl E2).
Qed.

Lemma read_cache_contract_witness :
  push_data 1 "x" init = Some (mkState "x" None false []) /\
  async_read 3 (RHandler 7 []) (mkState "x" None false []) =
    Some (mkState "" None false [(7, "x")]) /\
  exists rest, delivered (mkState "" None false [(7, "x")]) = (7, "x") :: rest.
Proof.
  destruct read_cache_contract as (_ & _ & _ & _ & _ & _ & _ & Ex1 & _).
  split; [reflexivity | split; [reflexivity |]].
  exact (Ex1 1 3 (RHandler 7 []) (mkState "x" None false []) _ eq_refl eq_refl).
Defined.

(** *** Further properties of the read adapter *)



(** Extra: only the latest consumer is kept: on an empty buffer,
    [async_read(h1)] then [async_read(h2)] replaces [h1], and the next
    [push_data(d)] hands [d] to [h2] alone. *)
Theorem newer_read_replaces_waiting (s : state) (h1 h2 : ReadHandler) (d : string) (n m k : nat) :
  data_queue s = "" -> rbody h2 = [] ->
  match async_read (S n) h1 s with
  | Some s1 => match async_read (S m) h2 s1 with
               | Some s2 => push_data (S (S k)) d s2
               | None => None
               end
  | None => None
  end =
  Some (mkState "" (Some h2) false (delivered s ++ [(rid h2, d)])).
Proof.
  intros E Hb; simpl; rewrite E; simpl; rewrite Hb; reflexivity.
Qed.

Lemma newer_read_replaces_waiting_witness :
  data_queue init = "" /\ rbody (RHandler 2 []) = [] /\
  match async_read 1 (RHandler 1 []) init with
  | Some s1 => match async_read 1 (RHandler 2 []) s1 with
               | Some s2 => push_data 2 "x" s2
               | None => None
               end
  | None => None
  end = Some (mkState "" (Some (RHandler 2 [])) false [(2, "x")]).
Proof.
  split; [reflexivity | split; [reflexivity |]].
  exact (newer_read_replaces_waiting init (RHandler 1 []) (RHandler 2 []) "x" 0 0 0
           eq_refl eq_refl).
Defined.



(** Extra: an empty push is not a delivery when nobody waits: with an
    empty buffer, [push_data("")] then [async_read(h)] leaves [h] waiting
    and delivers nothing; with a waiting consumer, [push_data("")] hands
    it the empty string and clears [is_waiting]. *)
Theorem empty_push_edge_cases (s : state) (h : ReadHandler) (n m : nat) :
  data_queue s = "" ->
  (is_waiting s = false ->
   match push_data (S n) "" s with Some s1 => async_read (S m) h s1 | None => None end =
   Some (mkState "" (Some h) true (delivered s))) /\
  (is_waiting s = true -> read_handler s = Some h -> rbody h = [] ->
   push_data (S (S n)) "" s = Some (mkState "" (Some h) false (delivered s ++ [(rid h, "")]))).
Proof.
  intros E; split.
  - intros W; simpl; rewrite W; simpl; rewrite E; reflexivity.
  - intros W Hh Hb; simpl; rewrite W, Hh; simpl; rewrite Hb, E; reflexivity.
Qed.

Lemma empty_push_edge_cases_witness :
  data_queue init = "" /\ is_waiting init = false /\
  match push_data 1 "" init with Some s1 => async_read 1 (RHandler 3 []) s1 | None => None end =
  Some (mkState "" (Some (RHandler 3 [])) true []).
Proof.
  split; [reflexivity | split; [reflexivity |]].
  exact (proj1 (empty_push_edge_cases init (RHandler 3 []) 0 0 eq_refl) eq_refl).
Defined.

End ReadDataCacheProofs.

(* ------------------------------------------------------------------ *)
(** ** connect_out_socket *)

Module ConnectorProofs.
Import Asio Connector.

(** Claim C7.  When resolution fails or yields no address, the resolve
    handler logs one [ERROR] line tagged with [in_endpoint] that names the
    target [addr:port], calls [destroy()] once, and opens and connects
    nothing.  On success only the first resolved address is opened and
    connected to.  A failed [open] destroys the session and stops; a
    failed connect logs and destroys without trying another address. *)
Theorem resolve_failure_destroys_once :
  (forall fo cfg in_ep addr port error results open_ec,
   failed error = true \/ results = [] ->
   resolve_handler fo cfg in_ep addr port error results open_ec =
   [Log in_ep ("cannot resolve remote server hostname " ++ addr ++ ":" ++ port
               ++ " reason: " ++ message error) ERROR; Destroy]) /\
  (forall fo cfg in_ep addr port error e rest open_ec x,
   In x (resolve_handler fo cfg in_ep addr port error (e :: rest) open_ec) ->
   (forall p, x = Open p -> p = protocol_of e) /\
   (forall e', x = AsyncConnect e' -> e' = e)) /\
  (forall fo cfg in_ep addr port error e rest open_ec,
   failed error = false -> failed open_ec = true ->
   resolve_handler fo cfg in_ep addr port error (e :: rest) open_ec =
   [Log in_ep (addr ++ " is resolved to " ++ address e) ALL; Open (protocol_of e); Destroy]) /\
  (forall in_ep addr port has_timer error,
   failed error = true ->
   connect_handler in_ep addr port has_timer error =
   ((if has_timer then [CancelTimer] else [])
    ++ [Log in_ep ("cannot establish connection to remote server " ++ addr ++ ":" ++ port
                   ++ " reason: " ++ message error) ERROR; Destroy])%list).
Proof.
  split; [| split; [| split]].
  - intros fo cfg in_ep addr port error [| e rest] open_ec [F | F]; unfold resolve_handler;
      try rewrite F; try reflexivity; discriminate.
  - intros fo cfg in_ep addr port error e rest open_ec x H; unfold resolve_handler in H.
    destruct (failed error), (failed open_ec), (no_delay cfg), (keep_alive cfg),
      (fo && fast_open cfg), (timeout_active cfg); simpl in H;
      repeat (destruct H as [<- | H]; [split; intros ? E; congruence |]); contradiction.
  - intros fo cfg in_ep addr port error e rest open_ec F O; unfold resolve_handler.
    rewrite F, O; reflexivity.
  - intros in_ep addr port has_timer error F; unfold connect_handler; rewrite F; reflexivity.
Qed.

Lemma resolve_failure_destroys_once_witness :
  ([] : list endpoint) = [] /\
  resolve_handler false (mkTcpConfig true true false 5) "client" "nohost" "443" Success []
    Success =
  [Log "client" "cannot resolve remote server hostname nohost:443 reason: Success" ERROR;
   Destroy].
Proof.
  split; [reflexivity |].
  destruct resolve_failure_destroys_once as [Fail _].
  apply (Fail false (mkTcpConfig true true false 5) "client" "nohost" "443" Success []
           Success); right; reflexivity.
Defined.

(** Claim C8 (failing run).  With [connect_time_out = 5] the timer is
    started before [async_connect].  The deadline passes (the timer
    handler is queued with success), then the connect succeeds and its
    handler runs first: [cancel()] can no longer abort the queued wait, the
    session is reported connected, and then the timer handler logs a
    timeout and destroys it. *)
Theorem timeout_destroys_after_connect :
  let cfg := mkTcpConfig false false false 5 in
  let eff := resolve_handler false cfg "client" "example.com" "443" Success
               [mkEndpoint "93.184.216.34" V4] Success in
  eff = [Log "client" "example.com is resolved to 93.184.216.34" ALL; Open V4;
         StartTimer 5; AsyncConnect (mkEndpoint "93.184.216.34" V4)] /\
  run_attempt "client" "example.com" "443"
    [TimerExpires; ConnectCompletes Success; RunConnectHandler; RunTimerHandler]
    (start_attempt cfg eff) =
  Some (mkAttempt (Some TimerDone) OpDone
          (eff ++ [CancelTimer; Connected;
                   Log "client" "cannot establish connection to remote server example.com:443 reason: timeout" ERROR;
                   Destroy])).
Proof. vm_compute; split; reflexivity. Qed.

(** *** Further properties of the connector *)

(** Once the connect handler has run and the timer is cancelled or done,
    no event adds anything. *)
Lemma attempt_settled in_ep addr port evs a a' :
  attempt_connect a = OpDone ->
  attempt_timer a = Some (TimerQueued OperationAborted) \/ attempt_timer a = Some TimerDone ->
  run_attempt in_ep addr port evs a = Some a' -> attempt_effects a' = attempt_effects a.
Proof.
  revert a; induction evs as [| ev evs IH]; intros a C T E; simpl in E.
  - injection E as <-; reflexivity.
  - destruct ev; simpl in E; rewrite ?C in E; try discriminate;
      destruct T as [T | T]; rewrite T in E; try discriminate.
    apply IH in E; [| reflexivity | right; reflexivity].
    rewrite E; simpl; apply app_nil_r.
Qed.

(** Extra: when the connect handler runs while the timeout timer is still
    waiting, its [cancel()] aborts the wait: whatever the event loop does
    afterwards, the only effects of the attempt are the connect handler's
    (cancel, then [connected_handler()] or an error log and [destroy()]). *)
Theorem connect_first_silences_timer in_ep addr port (a : attempt) ec evs a' :
  attempt_timer a = Some TimerWaiting -> attempt_connect a = OpQueued ec ->
  run_attempt in_ep addr port (RunConnectHandler :: evs) a = Some a' ->
  attempt_effects a' = (attempt_effects a ++ connect_handler in_ep addr port true ec)%list.
Proof.
  intros T C E; simpl in E; rewrite C, T in E; simpl in E.
  apply attempt_settled in E; [exact E | reflexivity | left; reflexivity].
Qed.

Lemma connect_first_silences_timer_witness :
  attempt_timer (mkAttempt (Some TimerWaiting) (OpQueued Success) []) = Some TimerWaiting /\
  attempt_connect (mkAttempt (Some TimerWaiting) (OpQueued Success) []) = OpQueued Success /\
  run_attempt "c" "h" "443" [RunConnectHandler; RunTimerHandler]
    (mkAttempt (Some TimerWaiting) (OpQueued Success) []) =
    Some (mkAttempt (Some TimerDone) OpDone [CancelTimer; Connected]) /\
  [CancelTimer; Connected] = ([] ++ connect_handler "c" "h" "443" true Success)%list.
Proof.
  split; [reflexivity | split; [reflexivity | split; [reflexivity |]]].
  exact (connect_first_silences_timer "c" "h" "443"
           (mkAttempt (Some TimerWaiting) (OpQueued Success) []) Success [RunTimerHandler]
           (mkAttempt (Some TimerDone) OpDone [CancelTimer; Connected]) eq_refl eq_refl
           eq_refl).
Defined.

(** Extra: when the timeout handler runs before the connect handler, it
    logs the timeout and destroys the session, and the connect handler
    still runs afterwards: on success it calls [connected_handler()] on
    the destroyed session, on error it logs and calls [destroy()] a second
    time. *)
Theorem timer_first_then_connect in_ep addr port (a : attempt) ec :
  attempt_timer a = Some (TimerQueued Success) -> attempt_connect a = OpQueued ec ->
  run_attempt in_ep addr port [RunTimerHandler; RunConnectHandler] a =
  Some (mkAttempt (Some TimerDone) OpDone
    (attempt_effects a
     ++ [Log in_ep ("cannot establish connection to remote server " ++ addr ++ ":" ++ port
                    ++ " reason: timeout") ERROR; Destroy; CancelTimer]
     ++ (if failed ec
         then [Log in_ep ("cannot establish connection to remote server " ++ addr ++ ":"
                          ++ port ++ " reason: " ++ message ec) ERROR; Destroy]
         else [Connected]))%list).
Proof.
  intros T C; simpl; rewrite T; simpl; rewrite C; simpl.
  rewrite <- !app_assoc; reflexivity.
Qed.

Lemma timer_first_then_connect_witness :
  attempt_timer (mkAttempt (Some (TimerQueued Success)) (OpQueued Success) []) =
    Some (TimerQueued Success) /\
  run_attempt "c" "h" "443" [RunTimerHandler; RunConnectHandler]
    (mkAttempt (Some (TimerQueued Success)) (OpQueued Success) []) =
  Some (mkAttempt (Some TimerDone) OpDone
    [Log "c" "cannot establish connection to remote server h:443 reason: timeout" ERROR;
     Destroy; CancelTimer; Connected]).
Proof.
  split; [reflexivity |].
  exact (timer_first_then_connect "c" "h" "443"
           (mkAttempt (Some (TimerQueued Success)) (OpQueued Success) []) Success
           eq_refl eq_refl).
Defined.

(** Extra: with [connect_time_out <= 0] no timer is started, and for
    every order of events the attempt only ever adds the connect handler's
    effects, without a [cancel()]: no timeout can destroy the session. *)
Theorem no_timeout_without_timer fo cfg in_ep addr port error results open_ec eff evs a' :
  (connect_time_out cfg <= 0)%Z ->
  (forall t, ~ In (StartTimer t) (resolve_handler fo cfg in_ep addr port error results open_ec)) /\
  (run_attempt in_ep addr port evs (start_attempt cfg eff) = Some a' ->
   attempt_effects a' = eff \/
   exists ec, attempt_effects a' = (eff ++ connect_handler in_ep addr port false ec)%list).
Proof.
  intros Hc.
  assert (Ta : timeout_active cfg = false) by (apply Z.ltb_ge; exact Hc).
  split.
  - intros t H; unfold resolve_handler in H; rewrite Ta in H.
    destruct results as [| e rest]; [simpl in H; intuition discriminate |].
    destruct (failed error), (failed open_ec), (no_delay cfg), (keep_alive cfg),
      (fo && fast_open cfg); simpl in H; intuition discriminate.
  - unfold start_attempt; rewrite Ta.
    assert (Gen : forall evs a, attempt_timer a = None ->
              (attempt_effects a = eff /\ attempt_connect a <> OpDone) \/
              (attempt_connect a = OpDone /\
               exists ec, attempt_effects a = (eff ++ connect_handler in_ep addr port false ec)%list) ->
              run_attempt in_ep addr port evs a = Some a' ->
              attempt_effects a' = eff \/
              exists ec, attempt_effects a' = (eff ++ connect_handler in_ep addr port false ec)%list).
    { induction evs0 as [| ev evs0 IH]; intros a T Inv E; simpl in E.
      - injection E as <-; destruct Inv as [[H _] | [_ H]]; [left | right]; exact H.
      - destruct ev; simpl in E; rewrite ?T in E; try discriminate.
        + destruct (attempt_connect a) eqn:C; try discriminate.
          apply IH in E; [exact E | reflexivity |]; left; simpl; split; [| discriminate].
          destruct Inv as [[H _] | [H _]]; [exact H | discriminate].
        + destruct (attempt_connect a) eqn:C; try discriminate.
          apply IH in E; [exact E | reflexivity |]; right; simpl; split; [reflexivity |].
          exists e; destruct Inv as [[H _] | [H _]]; [rewrite H; reflexivity | discriminate]. }
    apply Gen; [reflexivity | left; split; [reflexivity | discriminate]].
Qed.

Lemma no_timeout_without_timer_witness :
  (connect_time_out (mkTcpConfig false false false 0) <= 0)%Z /\
  run_attempt "c" "h" "443" [ConnectCompletes Success; RunConnectHandler]
    (start_attempt (mkTcpConfig false false false 0) []) =
    Some (mkAttempt None OpDone [Connected]).
Proof.
  split; [discriminate |].
  destruct (no_timeout_without_timer false (mkTcpConfig false false false 0) "c" "h" "443"
              Success [] Success [] [ConnectCompletes Success; RunConnectHandler]
              (mkAttempt None OpDone [Connected]) ltac:(discriminate)) as [_ _].
  reflexivity.
Defined.



End ConnectorProofs.

(* ------------------------------------------------------------------ *)
(** ** connect_remote_server_ssl *)

Module SslConnectorProofs.
Import Asio Connector SslConnector.



End SslConnectorProofs.

(* ------------------------------------------------------------------ *)
(** ** shutdown_ssl_socket *)

Module ShutdownProofs.
Import Asio Shutdown.

(** Claim C9 (failing run).  The close-notify completes and, before its
    handler runs, the 30 s timer expires.  The shutdown handler runs the
    teardown and cancels the timer, but the timer's handler is already
    queued with success, so it runs the teardown a second time.  When the
    timer has not expired yet, the same cancellation makes it a no-op and
    the teardown runs once. *)
Theorem teardown_finalizer_runs_twice :
  run_teardown [ShutdownCompletes Success; TimerExpires; RunShutdownHandler; RunTimerHandler]
    start = Some (mkTeardown TimerDone OpDone false 2) /\
  run_teardown [ShutdownCompletes Success; RunShutdownHandler; RunTimerHandler]
    start = Some (mkTeardown TimerDone OpDone false 1).
Proof. split; reflexivity. Qed.

Definition timer_done (t : timer) : nat := match t with TimerDone => 1 | _ => 0 end.
Definition op_done (o : operation) : nat := match o with OpDone => 1 | _ => 0 end.

(** Each handler run adds at most one run of the teardown, and the socket
    is closed exactly when the teardown has run. *)
Definition bounded (t : teardown) : Prop :=
  finalizer_runs t <= timer_done (shutdown_timer t) + op_done (shutdown_op t) /\
  socket_open t = Nat.eqb (finalizer_runs t) 0.

Lemma teardown_step_bounded ev t t' :
  bounded t -> teardown_step ev t = Some t' -> bounded t'.
Proof.
  unfold bounded; intros [B O] E; destruct ev; simpl in E.
  - destruct (shutdown_timer t) eqn:T; try discriminate.
    injection E as <-; simpl in *; split; [lia | exact O].
  - destruct (shutdown_op t) eqn:Op; try discriminate.
    injection E as <-; simpl in *; split; [lia | exact O].
  - destruct (shutdown_timer t) eqn:T; try discriminate.
    injection E as <-; unfold ssl_shutdown_cb.
    destruct (is_operation_aborted e); simpl in *; [split; [lia | exact O] |].
    split; [| reflexivity].
    destruct (shutdown_op t); simpl in *; lia.
  - destruct (shutdown_op t) eqn:Op; try discriminate.
    injection E as <-; unfold ssl_shutdown_cb.
    destruct (is_operation_aborted e); simpl in *; [split; [lia | exact O] |].
    split; [| reflexivity].
    destruct (shutdown_timer t); simpl in *; lia.
Qed.

Lemma run_teardown_bounded evs t t' :
  bounded t -> run_teardown evs t = Some t' -> bounded t'.
Proof.
  revert t; induction evs as [| ev evs IH]; intros t B E; simpl in E.
  - injection E as <-; exact B.
  - destruct (teardown_step ev t) as [t1 |] eqn:S1; [| discriminate].
    exact (IH t1 (teardown_step_bounded ev t t1 B S1) E).
Qed.

(** Extra: whatever the order in which the [io_context] delivers the
    timer expiry, the shutdown completion and the two handlers, the
    teardown in [ssl_shutdown_cb] runs at most twice, and the socket is
    closed exactly when it has run at least once. *)
Theorem teardown_at_most_twice evs t :
  run_teardown evs start = Some t ->
  finalizer_runs t <= 2 /\ (socket_open t = false <-> 1 <= finalizer_runs t).
Proof.
  intros E; destruct (run_teardown_bounded evs start t (conj (le_n 0) eq_refl) E) as [B O].
  split.
  - destruct (shutdown_timer t), (shutdown_op t); simpl in B; lia.
  - rewrite O; destruct (finalizer_runs t); simpl; split; intros H;
      [discriminate | lia | lia | reflexivity].
Qed.

Lemma teardown_at_most_twice_witness :
  run_teardown [ShutdownCompletes Success; TimerExpires; RunShutdownHandler; RunTimerHandler]
    start = Some (mkTeardown TimerDone OpDone false 2) /\
  finalizer_runs (mkTeardown TimerDone OpDone false 2) <= 2.
Proof.
  split; [reflexivity |].
  exact (proj1 (teardown_at_most_twice
                  [ShutdownCompletes Success; TimerExpires; RunShutdownHandler; RunTimerHandler]
                  (mkTeardown TimerDone OpDone false 2) eq_refl)).
Defined.

(** Before the timer expires, the teardown has not run and the timer is
    still waiting, or it has run once from the shutdown handler, which
    cancelled the timer. *)
Definition once (t : teardown) : Prop :=
  (shutdown_timer t = TimerWaiting /\ finalizer_runs t = 0) \/
  (finalizer_runs t = 1 /\ shutdown_op t = OpDone /\
   (shutdown_timer t = TimerQueued OperationAborted \/ shutdown_timer t = TimerDone)).

Lemma run_teardown_once evs t t' :
  ~ In TimerExpires evs -> once t -> run_teardown evs t = Some t' -> once t'.
Proof.
  revert t; induction evs as [| ev evs IH]; intros t N I E; simpl in E.
  - injection E as <-; exact I.
  - assert (N' : ~ In TimerExpires evs) by (intros H; apply N; right; exact H).
    destruct (teardown_step ev t) as [t1 |] eqn:S1; [| discriminate].
    apply (IH t1 N'); [| exact E].
    unfold once in *; destruct ev; simpl in S1.
    + exfalso; apply N; left; reflexivity.
    + destruct (shutdown_op t) eqn:Op; try discriminate.
      injection S1 as <-; simpl.
      destruct I as [I | [_ [I _]]]; [left; exact I | congruence].
    + destruct I as [[T R] | [R [Op [T | T]]]]; rewrite T in S1; try discriminate.
      injection S1 as <-; right; simpl; auto.
    + destruct (shutdown_op t) eqn:Op; try discriminate.
      destruct I as [[T R] | [_ [I _]]]; [| congruence].
      injection S1 as <-; unfold ssl_shutdown_cb.
      destruct (is_operation_aborted e); simpl; [left; auto |].
      right; rewrite T, R; simpl; auto.
Qed.

(** Extra: as long as the 30 s timer does not expire, the teardown in
    [ssl_shutdown_cb] runs at most once: the shutdown handler cancels the
    waiting timer, whose handler then receives [operation_aborted] and
    returns. *)
Theorem teardown_once_without_timeout evs t :
  ~ In TimerExpires evs -> run_teardown evs start = Some t -> finalizer_runs t <= 1.
Proof.
  intros N E.
  destruct (run_teardown_once evs start t N (or_introl (conj eq_refl eq_refl)) E)
    as [[_ R] | [R _]]; lia.
Qed.

Lemma teardown_once_without_timeout_witness :
  ~ In TimerExpires [ShutdownCompletes Success; RunShutdownHandler; RunTimerHandler] /\
  run_teardown [ShutdownCompletes Success; RunShutdownHandler; RunTimerHandler] start =
    Some (mkTeardown TimerDone OpDone false 1) /\
  finalizer_runs (mkTeardown TimerDone OpDone false 1) <= 1.
Proof.
  assert (N : ~ In TimerExpires [ShutdownCompletes Success; RunShutdownHandler; RunTimerHandler])
    by (simpl; intuition discriminate).
  split; [exact N | split; [reflexivity |]].
  exact (teardown_once_without_timeout _ (mkTeardown TimerDone OpDone false 1) N eq_refl).
Defined.

End ShutdownProofs.

(* ------------------------------------------------------------------ *)
(** ** Constants *)

Module ConstantsProofs.
Import Constants.
Local Open Scope Z_scope.

(** Claim C10.  [PACKET_HEADER_SIZE] is 95, [DEFAULT_PACKET_SIZE] is 1397,
    which is 1492 minus the header, and the literals the header falls back
    to when the platform defines none are: [SO_ORIGINAL_DST] 80,
    [IP6T_SO_ORIGINAL_DST] 80, [IP_TRANSPARENT] 19, [IP_RECVORIGDSTADDR] 20,
    [IPV6_RECVORIGDSTADDR] 74, [IP_RECVTTL] 12, [IPV6_RECVHOPLIMIT] 51,
    [IPV6_HOPLIMIT] 21 and [IP_TTL] 4. *)
Theorem wire_and_sockopt_constants :
  PACKET_HEADER_SIZE = 95 /\ DEFAULT_PACKET_SIZE = 1397 /\
  DEFAULT_PACKET_SIZE = 1492 - PACKET_HEADER_SIZE /\
  SO_ORIGINAL_DST None = 80 /\ IP6T_SO_ORIGINAL_DST None = 80 /\
  IP_TRANSPARENT None = 19 /\ IP_RECVORIGDSTADDR None None = 20 /\
  IPV6_RECVORIGDSTADDR None None = 74 /\ IP_RECVTTL None = 12 /\
  IPV6_RECVHOPLIMIT None = 51 /\ IPV6_HOPLIMIT None = 21 /\ IP_TTL None = 4.
Proof. repeat split. Qed.

End ConstantsProofs.
